(** * Port availability helper (src/utils/portCheck.ts)

    A shallow embedding of the three operations of [portCheck.ts]:
    the single-port probe [isPortAvailable], the sequential scan
    [findAvailablePort] and the preferred-port resolution
    [getAvailablePort], together with the properties the specification
    states about them.

    The operating system's socket layer is not part of the repository.  It
    is represented by a [host] state: the loopback ports that currently
    carry a listening socket, the other bind-time failures the system
    reports, and a trace of the ports handed to [server.listen].  The
    [async]/[await] code is strictly sequential, so it is written in a
    state monad over [host].  Port numbers and attempt counts are the
    integers of the data model, taken in [Z]; -1 is the failure value the
    code itself uses.

    The embedding has two layers.  The first follows the two events the
    probe subscribes to, and is the behaviour of the code as long as every
    port handed to [server.listen] is a port number, 0 to 65535.  The
    second, [Checked], adds what [server.listen] does with any other
    number: it throws before any bind is attempted, the probe has no
    handler for that, and the promise of the probe, and of every caller
    awaiting it, is rejected. *)

From stdpp Require Import base decidable option list sorting gmap strings pretty.
From Equations Require Import Equations.
From Stdlib Require Import ZArith Lia.

Local Open Scope Z_scope.

(** ** The host: loopback sockets as seen by one process *)

(** The two events the probe subscribes to on its server.  The error
    event carries [err.code]. *)
Inductive event : Type :=
  | Listening
  | Error (code : string).

Record host : Type := Host {
  (** ports of 127.0.0.1 that carry a listening socket *)
  bound : gset Z;
  (** any other reason for which the system refuses to bind a port,
      as the error code it reports ([EACCES], ...) *)
  fault : Z -> option string;
  (** the ports passed to [server.listen] so far, oldest first *)
  probes : list Z
}.

(** A port is free when binding a listening socket to it succeeds. *)
Definition free (h : host) (p : Z) : Prop :=
  fault h p = None ∧ p ∉ bound h.

#[global] Instance free_dec h p : Decision (free h p).
Proof. unfold free. apply _. Defined.

(** ** Sequential asynchronous code: a state monad over the host *)

Definition M (A : Type) : Type := host -> A * host.

Definition ret {A} (a : A) : M A := fun h => (a, h).

Definition bind {A B} (m : M A) (k : A -> M B) : M B :=
  fun h => let (a, h1) := m h in k a h1.

Notation "'do' x <- m 'in' k" := (bind m (fun x => k))
  (at level 10, x name, m at level 100, k at level 200, only parsing).

(** [server.listen(port, "127.0.0.1")] for a port number that [listen]
    accepts: the outcome of the bind attempt arrives as exactly one of the
    two events.  On success the socket stays bound until it is closed.
    What [listen] does with a number it does not accept is in [Checked]. *)
Definition server_listen (port : Z) : M event := fun h =>
  let tr := probes h ++ [port] in
  match fault h port with
  | Some code => (Error code, Host (bound h) (fault h) tr)
  | None =>
      if decide (port ∈ bound h)
      then (Error "EADDRINUSE", Host (bound h) (fault h) tr)
      else (Listening, Host ({[port]} ∪ bound h) (fault h) tr)
  end.

(** [server.close()] for the server listening on [port]. *)
Definition server_close (port : Z) : M unit := fun h =>
  (tt, Host (bound h ∖ {[port]}) (fault h) (probes h)).

(** ** isPortAvailable *)

(** The handler of the [error] event; both branches resolve with [false]. *)
Definition on_error (code : string) : M bool :=
  if String.eqb code "EADDRINUSE" || String.eqb code "EACCES"
  then ret false
  else ret false.

(** The handler of the [listening] event. *)
Definition on_listening (port : Z) : M bool :=
  do _ <- server_close port in
  ret true.

Definition isPortAvailable (port : Z) : M bool :=
  do ev <- server_listen port in
  match ev with
  | Error code => on_error code
  | Listening => on_listening port
  end.

(** ** findAvailablePort *)

(** The [for] loop of [findAvailablePort], entered with counter [i]. *)
Equations? for_loop (startPort maxAttempts i : Z) (h : host) : Z * host
  by wf (Z.to_nat (maxAttempts - i)) lt :=
for_loop startPort maxAttempts i h with decide (i < maxAttempts) := {
  | right _ => (-1, h)
  | left _ with isPortAvailable (startPort + i) h := {
      | (true, h1) => (startPort + i, h1)
      | (false, h1) => for_loop startPort maxAttempts (i + 1) h1 } }.
Proof. lia. Qed.

(** [maxAttempts] is an optional argument with default 50. *)
Definition findAvailablePort (startPort : Z) (maxAttempts : option Z) : M Z :=
  for_loop startPort (default 50 maxAttempts) 0.

(** ** getAvailablePort *)

Record resolution : Type := Resolution {
  port : Z;
  switched : bool;
  message : option string
}.

(** [autoSwitch] is an optional argument with default [true].  Template
    literals print a number in decimal, with a leading minus sign when it
    is negative. *)
Definition getAvailablePort (preferredPort : Z) (autoSwitch : option bool)
  : M resolution :=
  let autoSwitch := default true autoSwitch in
  do isAvailable <- isPortAvailable preferredPort in
  if isAvailable then
    ret {| port := preferredPort; switched := false; message := None |}
  else if negb autoSwitch then
    ret {| port := -1;
           switched := false;
           message := Some ("Port " +:+ pretty preferredPort +:+
             " is already in use. Please specify a different port in config.json or enable auto port switching.") |}
  else
    do availablePort <- findAvailablePort (preferredPort + 1) None in
    if availablePort =? -1 then
      ret {| port := -1;
             switched := false;
             message := Some ("Port " +:+ pretty preferredPort +:+
               " is in use and no available ports found in range " +:+
               pretty (preferredPort + 1) +:+ "-" +:+
               pretty (preferredPort + 50) +:+ ".") |}
    else
      ret {| port := availablePort;
             switched := true;
             message := Some ("Port " +:+ pretty preferredPort +:+
               " is in use, automatically switched to port " +:+
               pretty availablePort +:+ ".") |}.

(** ** The checked layer: numbers that [listen] refuses *)

(** The argument check of [server.listen]: a port is an integer from 0 to
    65535. *)
Definition validatePort (port : Z) : bool := (0 <=? port) && (port <? 65536).

(** How a promise settles. *)
Inductive settled (A : Type) : Type :=
  | Fulfilled (value : A)
  | Rejected (code : string).
Arguments Fulfilled {A} value.
Arguments Rejected {A} code.

Module Checked.

(** Sequential asynchronous code whose awaited promise may be rejected;
    a rejection ends the [async] function that awaits it. *)
Definition P (A : Type) : Type := host -> settled A * host.

Definition resolve {A} (a : A) : P A := fun h => (Fulfilled a, h).

Definition await {A B} (m : P A) (k : A -> P B) : P B :=
  fun h =>
    match m h with
    | (Fulfilled a, h1) => k a h1
    | (Rejected code, h1) => (Rejected code, h1)
    end.

Definition lift {A} (m : M A) : P A :=
  fun h => let (a, h1) := m h in (Fulfilled a, h1).

Notation "'do!' x <- m 'in' k" := (await m (fun x => k))
  (at level 10, x name, m at level 100, k at level 200, only parsing).

(** [server.listen(port, "127.0.0.1")] for any number: a number that is
    not a port makes [listen] throw [ERR_SOCKET_BAD_PORT] on the spot, no
    event follows and nothing is bound. *)
Definition listen (port : Z) : P event := fun h =>
  if validatePort port then lift (server_listen port) h
  else (Rejected "ERR_SOCKET_BAD_PORT", Host (bound h) (fault h) (probes h ++ [port])).

(** The promise executor of [isPortAvailable] has no [try]: what [listen]
    throws rejects the promise. *)
Definition isPortAvailable (port : Z) : P bool :=
  do! ev <- listen port in
  match ev with
  | Error code => lift (on_error code)
  | Listening => lift (on_listening port)
  end.

Equations? for_loop (startPort maxAttempts i : Z) (h : host) : settled Z * host
  by wf (Z.to_nat (maxAttempts - i)) lt :=
for_loop startPort maxAttempts i h with decide (i < maxAttempts) := {
  | right _ => (Fulfilled (-1), h)
  | left _ with isPortAvailable (startPort + i) h := {
      | (Fulfilled true, h1) => (Fulfilled (startPort + i), h1)
      | (Fulfilled false, h1) => for_loop startPort maxAttempts (i + 1) h1
      | (Rejected code, h1) => (Rejected code, h1) } }.
Proof. lia. Qed.

Definition findAvailablePort (startPort : Z) (maxAttempts : option Z) : P Z :=
  for_loop startPort (default 50 maxAttempts) 0.

Definition getAvailablePort (preferredPort : Z) (autoSwitch : option bool)
  : P resolution :=
  let autoSwitch := default true autoSwitch in
  do! isAvailable <- isPortAvailable preferredPort in
  if isAvailable then
    resolve {| port := preferredPort; switched := false; message := None |}
  else if negb autoSwitch then
    resolve {| port := -1;
               switched := false;
               message := Some ("Port " +:+ pretty preferredPort +:+
                 " is already in use. Please specify a different port in config.json or enable auto port switching.") |}
  else
    do! availablePort <- findAvailablePort (preferredPort + 1) None in
    if availablePort =? -1 then
      resolve {| port := -1;
                 switched := false;
                 message := Some ("Port " +:+ pretty preferredPort +:+
                   " is in use and no available ports found in range " +:+
                   pretty (preferredPort + 1) +:+ "-" +:+
                   pretty (preferredPort + 50) +:+ ".") |}
    else
      resolve {| port := availablePort;
                 switched := true;
                 message := Some ("Port " +:+ pretty preferredPort +:+
                   " is in use, automatically switched to port " +:+
                   pretty availablePort +:+ ".") |}.

End Checked.

(** ** Vocabulary of the statements *)

(** The host after the ports [ps] have been probed, every probe having
    released what it bound. *)
Definition probed (ps : list Z) (h : host) : host :=
  Host (bound h) (fault h) (probes h ++ ps).

(** [sub] occurs in [s]. *)
Definition includes (s sub : string) : Prop :=
  exists pre post : string, s = pre +:+ sub +:+ post.

(** A sample host: port 8080 is taken, the privileged ports are refused. *)
Definition sample_host : host :=
  Host {[8080]} (fun p => if p <? 1024 then Some "EACCES"%string else None) [].

(** A host on which the ports 8080 to 8130 are all taken. *)
Definition crowded_host : host :=
  Host (list_to_set (seqZ 8080 51)) (fun _ => None) [].

(** Two hosts on which the same ports are free, whatever the reason the
    others are not. *)
Definition same_free (h1 h2 : host) : Prop :=
  forall p, free h1 p <-> free h2 p.

(** The sample host seen later and through another system: other error
    codes, 8080 refused instead of taken, probes already on record. *)
Definition relabelled_host : host :=
  Host ∅ (fun p => if p <? 1024 then Some "EPERM"%string
                   else if p =? 8080 then Some "EADDRNOTAVAIL"%string
                   else None) [8080; 8081].

(** A trace made of port numbers only. *)
Definition ports_only (tr : list Z) : Prop :=
  Forall (fun p => 0 <= p <= 65535) tr.

(** A host on which the last two ports, 65534 and 65535, are taken. *)
Definition top_host : host :=
  Host {[65534; 65535]} (fun _ => None) [].

(** Closed decidable facts about a concrete host are settled by running
    the decision procedure. *)
Ltac by_evaluation := apply (bool_decide_unpack _); vm_compute; exact I.

(** ** Basic facts about the monad and the host *)

Lemma bind_unfold {A B} (m : M A) (k : A -> M B) (h : host) :
  bind m k h = k (fst (m h)) (snd (m h)).
Proof. unfold bind. destruct (m h); reflexivity. Qed.

Lemma probed_nil h : probed [] h = h.
Proof. destruct h; unfold probed; simpl. by rewrite app_nil_r. Qed.

Lemma probed_probed ps qs h : probed qs (probed ps h) = probed (ps ++ qs) h.
Proof. unfold probed; simpl. by rewrite app_assoc. Qed.

Lemma free_probed ps h p : free (probed ps h) p <-> free h p.
Proof. reflexivity. Qed.

(** ** The event handlers *)

Lemma on_error_false code h : on_error code h = (false, h).
Proof.
  unfold on_error.
  destruct (String.eqb code "EADDRINUSE" || String.eqb code "EACCES");
    reflexivity.
Qed.

Lemma on_listening_true p h :
  on_listening p h = (true, Host (bound h ∖ {[p]}) (fault h) (probes h)).
Proof. reflexivity. Qed.

(** ** The socket layer *)

Lemma server_listen_free p h :
  free h p ->
  server_listen p h = (Listening, Host ({[p]} ∪ bound h) (fault h) (probes h ++ [p])).
Proof.
  intros [Hf Hb]. unfold server_listen. rewrite Hf.
  destruct (decide (p ∈ bound h)); [contradiction | reflexivity].
Qed.

Lemma server_listen_busy p h :
  ~ free h p ->
  exists code, server_listen p h = (Error code, probed [p] h).
Proof.
  intros Hn. unfold server_listen, probed.
  destruct (fault h p) as [code|] eqn:Hf; [by exists code |].
  destruct (decide (p ∈ bound h)) as [Hb|Hb]; [by eexists |].
  destruct Hn. by split.
Qed.

(** While the socket of a successful [listen] is open, the port is taken. *)
Lemma server_listen_holds p h :
  free h p -> ~ free (snd (server_listen p h)) p.
Proof.
  intros Hfree. rewrite (server_listen_free _ _ Hfree). simpl.
  intros [_ Hb]. simpl in Hb. set_solver.
Qed.

(** ** The probe *)

Lemma isPortAvailable_free p h :
  free h p -> isPortAvailable p h = (true, probed [p] h).
Proof.
  intros Hfree. unfold isPortAvailable.
  rewrite bind_unfold, (server_listen_free _ _ Hfree). simpl.
  rewrite on_listening_true. unfold probed. simpl.
  destruct Hfree as [_ Hb].
  do 2 f_equal. apply set_eq. intros x.
  rewrite elem_of_difference, elem_of_union, elem_of_singleton.
  split; [tauto | intros Hx; repeat split; [tauto | congruence]].
Qed.

Lemma isPortAvailable_busy p h :
  ~ free h p -> isPortAvailable p h = (false, probed [p] h).
Proof.
  intros Hn. unfold isPortAvailable.
  destruct (server_listen_busy _ _ Hn) as [code Hl].
  rewrite bind_unfold, Hl. simpl. apply on_error_false.
Qed.

Lemma isPortAvailable_spec p h :
  isPortAvailable p h = (bool_decide (free h p), probed [p] h).
Proof.
  destruct (decide (free h p)) as [Hf|Hf].
  - rewrite (bool_decide_eq_true_2 _ Hf). by apply isPortAvailable_free.
  - rewrite (bool_decide_eq_false_2 _ Hf). by apply isPortAvailable_busy.
Qed.

(** ** The scan loop *)

Lemma for_loop_body startPort maxAttempts i h :
  for_loop startPort maxAttempts i h =
  if decide (i < maxAttempts) then
    let (available, h1) := isPortAvailable (startPort + i) h in
    if available then (startPort + i, h1)
    else for_loop startPort maxAttempts (i + 1) h1
  else (-1, h).
Proof.
  simp for_loop.
  destruct (decide (i < maxAttempts)); simpl; [| reflexivity].
  destruct (isPortAvailable (startPort + i) h) as [[] h1]; reflexivity.
Qed.

Lemma for_loop_done startPort maxAttempts i h :
  maxAttempts <= i -> for_loop startPort maxAttempts i h = (-1, h).
Proof.
  intros Hle. rewrite for_loop_body.
  destruct (decide (i < maxAttempts)); [lia | reflexivity].
Qed.

Lemma for_loop_hit startPort maxAttempts i h :
  i < maxAttempts -> free h (startPort + i) ->
  for_loop startPort maxAttempts i h = (startPort + i, probed [startPort + i] h).
Proof.
  intros Hlt Hfree. rewrite for_loop_body.
  destruct (decide (i < maxAttempts)); [| lia].
  by rewrite (isPortAvailable_free _ _ Hfree).
Qed.

Lemma for_loop_miss startPort maxAttempts i h :
  i < maxAttempts -> ~ free h (startPort + i) ->
  for_loop startPort maxAttempts i h =
  for_loop startPort maxAttempts (i + 1) (probed [startPort + i] h).
Proof.
  intros Hlt Hbusy. rewrite for_loop_body.
  destruct (decide (i < maxAttempts)); [| lia].
  by rewrite (isPortAvailable_busy _ _ Hbusy).
Qed.

Lemma seqZ_step m n : 0 <= n -> seqZ m (n + 1) = [m] ++ seqZ (m + 1) n.
Proof.
  intros Hn. rewrite seqZ_cons by lia.
  replace (Z.succ m) with (m + 1) by lia.
  replace (Z.pred (n + 1)) with n by lia. reflexivity.
Qed.

(** The loop finds the first free port at or after [startPort + i], having
    probed the [n] taken ports before it and then that port, in order. *)
Lemma for_loop_first_free (n : nat) : forall startPort maxAttempts i h,
  i + Z.of_nat n < maxAttempts ->
  (forall j, i <= j < i + Z.of_nat n -> ~ free h (startPort + j)) ->
  free h (startPort + (i + Z.of_nat n)) ->
  for_loop startPort maxAttempts i h =
  (startPort + (i + Z.of_nat n),
   probed (seqZ (startPort + i) (Z.of_nat n + 1)) h).
Proof.
  induction n as [|n IH]; intros startPort maxAttempts i h Hlt Hbusy Hfree.
  - replace (i + Z.of_nat 0) with i in * by lia.
    rewrite for_loop_hit; [reflexivity | lia | done].
  - rewrite for_loop_miss; [| lia | apply Hbusy; lia].
    rewrite (IH startPort maxAttempts (i + 1)).
    + rewrite probed_probed. f_equal; [f_equal; lia |].
      replace (Z.of_nat (S n) + 1) with (Z.of_nat n + 1 + 1) by lia.
      rewrite (seqZ_step (startPort + i)) by lia.
      do 3 f_equal; lia.
    + lia.
    + intros j Hj. rewrite free_probed. apply Hbusy. lia.
    + rewrite free_probed.
      replace (i + 1 + Z.of_nat n) with (i + Z.of_nat (S n)) by lia. done.
Qed.

(** With no free port left in the range, the loop probes all of it and
    gives the sentinel. *)
Lemma for_loop_exhausted (n : nat) : forall startPort maxAttempts i h,
  maxAttempts - i <= Z.of_nat n ->
  (forall j, i <= j < maxAttempts -> ~ free h (startPort + j)) ->
  for_loop startPort maxAttempts i h =
  (-1, probed (seqZ (startPort + i) (maxAttempts - i)) h).
Proof.
  induction n as [|n IH]; intros startPort maxAttempts i h Hn Hbusy.
  - rewrite for_loop_done by lia.
    rewrite seqZ_nil by lia. by rewrite probed_nil.
  - destruct (decide (i < maxAttempts)) as [Hlt|Hge].
    + rewrite for_loop_miss; [| lia | apply Hbusy; lia].
      rewrite (IH startPort maxAttempts (i + 1));
        [| lia | intros j Hj; rewrite free_probed; apply Hbusy; lia].
      rewrite probed_probed.
      replace (maxAttempts - i) with (maxAttempts - (i + 1) + 1) by lia.
      rewrite (seqZ_step (startPort + i)) by lia.
      do 4 f_equal; lia.
    + rewrite for_loop_done by lia.
      rewrite seqZ_nil by lia. by rewrite probed_nil.
Qed.

(** Whatever the host, the loop gives the sentinel or a free port of its
    range, and leaves no socket behind. *)
Lemma for_loop_result startPort maxAttempts i h :
  (fst (for_loop startPort maxAttempts i h) = -1 \/
   (startPort + i <= fst (for_loop startPort maxAttempts i h)
      < startPort + maxAttempts /\
    free h (fst (for_loop startPort maxAttempts i h)))) /\
  exists tr, snd (for_loop startPort maxAttempts i h) = probed tr h.
Proof.
  funelim (for_loop startPort maxAttempts i h).
  - split; [by left | exists []; by rewrite probed_nil].
  - rewrite isPortAvailable_spec in Heq.
    injection Heq as Hfree <-. apply bool_decide_eq_true_1 in Hfree.
    simpl. split; [right; split; [lia | done] | by eexists].
  - rewrite isPortAvailable_spec in Heq.
    injection Heq as _ <-.
    destruct H as [Hres [tr Htr]]. split.
    + destruct Hres as [Hs | [Hrange Hfree]]; [by left | right].
      split; [lia | by apply free_probed in Hfree].
    + exists ([startPort + i] ++ tr). by rewrite Htr, probed_probed.
Qed.

Lemma seqZ_sorted m n : StronglySorted Z.lt (seqZ m n).
Proof.
  remember (Z.to_nat n) as k eqn:Hk. revert m n Hk.
  induction k as [|k IH]; intros m n Hk.
  - rewrite seqZ_nil by lia. constructor.
  - rewrite seqZ_cons by lia. constructor.
    + apply IH. lia.
    + apply Forall_seqZ. intros j Hj. lia.
Qed.

(** * The probe *)

Section Probe.

Variable h : host.

(** C7. Whatever error code the [error] event carries for the port
    (address in use, permission denied, or anything else), the probe
    resolves with [false]; it always has a result, and no socket of its
    own stays bound. *)
Theorem probe_error_uniform (p : Z) (code : string) :
  fst (server_listen p h) = Error code ->
  isPortAvailable p h = (false, probed [p] h).
Proof.
  intros Hev. apply isPortAvailable_busy. intros Hfree.
  rewrite (server_listen_free _ _ Hfree) in Hev. discriminate.
Qed.

(** C8. Probing a free port twice in a row answers [true] both times:
    the first probe closes its socket before it resolves, so the set of
    bound ports is the same before and after, and the second probe finds
    the port as free as the first did. *)
Theorem probe_twice (p : Z) :
  free h p ->
  let first := isPortAvailable p h in
  let second := isPortAvailable p (snd first) in
  fst first = true /\ bound (snd first) = bound h /\ free (snd first) p /\
  fst second = true /\ bound (snd second) = bound h.
Proof.
  intros Hfree first second. subst first second.
  rewrite (isPortAvailable_free _ _ Hfree). simpl.
  rewrite isPortAvailable_free by (by apply free_probed).
  by repeat split; try apply Hfree.
Qed.

End Probe.

Lemma probe_error_uniform_witness :
  fst (server_listen 80 sample_host) = Error "EACCES" /\
  isPortAvailable 80 sample_host = (false, probed [80] sample_host).
Proof.
  split; [reflexivity |].
  apply (probe_error_uniform sample_host 80 "EACCES"). reflexivity.
Defined.

Lemma probe_twice_witness :
  free sample_host 8081 /\
  fst (isPortAvailable 8081 sample_host) = true /\
  fst (isPortAvailable 8081 (snd (isPortAvailable 8081 sample_host))) = true.
Proof.
  assert (Hfree : free sample_host 8081) by by_evaluation.
  split; [exact Hfree |].
  destruct (probe_twice sample_host 8081 Hfree) as (H1 & _ & _ & H2 & _).
  split; [exact H1 | exact H2].
Defined.

(** * The scan *)

Lemma findAvailablePort_first_free start maxAttempts h k :
  0 <= k < default 50 maxAttempts ->
  (forall j, 0 <= j < k -> ~ free h (start + j)) ->
  free h (start + k) ->
  findAvailablePort start maxAttempts h =
  (start + k, probed (seqZ start (k + 1)) h).
Proof.
  intros Hk Hbusy Hfree. unfold findAvailablePort.
  rewrite (for_loop_first_free (Z.to_nat k)).
  - rewrite Z2Nat.id by lia. do 3 f_equal; lia.
  - rewrite Z2Nat.id; lia.
  - intros j Hj. apply Hbusy. rewrite Z2Nat.id in Hj; lia.
  - rewrite Z2Nat.id by lia. exact Hfree.
Qed.

Lemma findAvailablePort_none_free start maxAttempts h :
  (forall p, start <= p < start + default 50 maxAttempts -> ~ free h p) ->
  findAvailablePort start maxAttempts h =
  (-1, probed (seqZ start (default 50 maxAttempts)) h).
Proof.
  intros Hbusy. unfold findAvailablePort.
  rewrite (for_loop_exhausted (Z.to_nat (default 50 maxAttempts))).
  - do 3 f_equal; lia.
  - lia.
  - intros j Hj. apply Hbusy. lia.
Qed.

(** The scan returns the sentinel or a port of its range. *)
Lemma findAvailablePort_range start maxAttempts h :
  fst (findAvailablePort start maxAttempts h) = -1 \/
  start <= fst (findAvailablePort start maxAttempts h)
    < start + default 50 maxAttempts.
Proof.
  unfold findAvailablePort.
  destruct (for_loop_result start (default 50 maxAttempts) 0 h)
    as [[Hs | [Hr _]] _]; [by left | right; lia].
Qed.

(** In this section the attempt budget in force is
    [default 50 maxAttempts]: the argument, or 50 when it is left out. *)
Section Scan.

Variables (start : Z) (maxAttempts : option Z) (h : host).

(** C1. When [start + k] is the first free port of the range
    [start .. start + maxAttempts - 1], the scan returns exactly [start + k];
    the ports it probed are [start, start + 1, ..., start + k] in that
    order, so they are strictly increasing and none exceeds [start + k]. *)
Theorem scan_first_free (k : Z) :
  0 <= k < default 50 maxAttempts ->
  (forall j, 0 <= j < k -> ~ free h (start + j)) ->
  free h (start + k) ->
  exists tr,
    findAvailablePort start maxAttempts h = (start + k, probed tr h) /\
    tr = seqZ start (k + 1) /\
    StronglySorted Z.lt tr /\
    Forall (fun p => p <= start + k) tr.
Proof.
  intros Hk Hbusy Hfree. exists (seqZ start (k + 1)).
  split; [| split; [reflexivity | split]].
  - by apply findAvailablePort_first_free.
  - apply seqZ_sorted.
  - apply Forall_seqZ. intros j Hj. lia.
Qed.

End Scan.

(** C9. With a budget of zero or less the scan returns -1 at once: the
    host is left as it was, so no port has been probed. *)
Theorem scan_no_attempts (start maxAttempts : Z) (h : host) :
  maxAttempts <= 0 ->
  findAvailablePort start (Some maxAttempts) h = (-1, h).
Proof.
  intros Hle. unfold findAvailablePort. simpl. by apply for_loop_done.
Qed.

Lemma scan_first_free_witness :
  exists tr,
    findAvailablePort 1022 (Some 5) sample_host = (1022 + 2, probed tr sample_host) /\
    tr = seqZ 1022 (2 + 1) /\
    StronglySorted Z.lt tr /\
    Forall (fun p => p <= 1022 + 2) tr.
Proof.
  apply (scan_first_free 1022 (Some 5) sample_host 2).
  - simpl. lia.
  - intros j Hj [Hfault _].
    unfold sample_host in Hfault. cbn [fault] in Hfault.
    destruct (Z.ltb_spec (1022 + j) 1024); [discriminate | lia].
  - by_evaluation.
Defined.

Lemma scan_no_attempts_witness :
  findAvailablePort 8080 (Some (-3)) sample_host = (-1, sample_host).
Proof. apply (scan_no_attempts 8080 (-3) sample_host). lia. Defined.

(** * The resolution *)

Lemma string_app_assoc (a b c : string) : (a +:+ b) +:+ c = a +:+ (b +:+ c).
Proof.
  induction a as [|x a IH]; [reflexivity |].
  change (String x ((a +:+ b) +:+ c) = String x (a +:+ (b +:+ c))).
  by rewrite IH.
Qed.

Lemma includes_middle (pre sub post : string) :
  includes (pre +:+ sub +:+ post) sub.
Proof. by exists pre, post. Qed.

Lemma includes_prefix_skip (pre s sub : string) :
  includes s sub -> includes (pre +:+ s) sub.
Proof.
  intros (a & b & ->). exists (pre +:+ a), b.
  by rewrite string_app_assoc.
Qed.

(** What the resolution does once the preferred port has been found
    taken and switching is enabled. *)
Lemma getAvailablePort_busy preferred autoSwitch h :
  ~ free h preferred ->
  default true autoSwitch = true ->
  getAvailablePort preferred autoSwitch h =
  let (availablePort, h1) :=
    findAvailablePort (preferred + 1) None (probed [preferred] h) in
  if availablePort =? -1 then
    ({| port := -1;
        switched := false;
        message := Some ("Port " +:+ pretty preferred +:+
          " is in use and no available ports found in range " +:+
          pretty (preferred + 1) +:+ "-" +:+ pretty (preferred + 50) +:+ ".") |},
     h1)
  else
    ({| port := availablePort;
        switched := true;
        message := Some ("Port " +:+ pretty preferred +:+
          " is in use, automatically switched to port " +:+
          pretty availablePort +:+ ".") |},
     h1).
Proof.
  intros Hbusy Hswitch. unfold getAvailablePort. rewrite Hswitch.
  rewrite bind_unfold, (isPortAvailable_busy _ _ Hbusy). simpl.
  unfold bind.
  destruct (findAvailablePort (preferred + 1) None (probed [preferred] h))
    as [availablePort h1].
  by destruct (availablePort =? -1).
Qed.

Lemma getAvailablePort_free preferred autoSwitch h :
  free h preferred ->
  getAvailablePort preferred autoSwitch h =
  ({| port := preferred; switched := false; message := None |},
   probed [preferred] h).
Proof.
  intros Hfree. unfold getAvailablePort.
  by rewrite bind_unfold, (isPortAvailable_free _ _ Hfree).
Qed.

Lemma getAvailablePort_refused preferred autoSwitch h :
  ~ free h preferred ->
  default true autoSwitch = false ->
  getAvailablePort preferred autoSwitch h =
  ({| port := -1;
      switched := false;
      message := Some ("Port " +:+ pretty preferred +:+
        " is already in use. Please specify a different port in config.json or enable auto port switching.") |},
   probed [preferred] h).
Proof.
  intros Hbusy Hswitch. unfold getAvailablePort. rewrite Hswitch.
  by rewrite bind_unfold, (isPortAvailable_busy _ _ Hbusy).
Qed.

(** On the event layer: the resolution when the whole window is taken. *)
Lemma getAvailablePort_exhausted preferred autoSwitch h :
  default true autoSwitch = true ->
  ~ free h preferred ->
  (forall p, preferred + 1 <= p <= preferred + 50 -> ~ free h p) ->
  getAvailablePort preferred autoSwitch h =
  ({| port := -1;
      switched := false;
      message := Some ("Port " +:+ pretty preferred +:+
        " is in use and no available ports found in range " +:+
        pretty (preferred + 1) +:+ "-" +:+ pretty (preferred + 50) +:+ ".") |},
   probed (preferred :: seqZ (preferred + 1) 50) h).
Proof.
  intros Hswitch Hbusy Hwindow.
  rewrite (getAvailablePort_busy _ _ _ Hbusy Hswitch).
  rewrite findAvailablePort_none_free.
  - by rewrite probed_probed.
  - intros p Hp. apply Hwindow. simpl in Hp. lia.
Qed.

Lemma includes_range (pre a b : string) :
  includes (pre +:+ a +:+ "-" +:+ b +:+ ".") (a +:+ "-" +:+ b).
Proof.
  apply includes_prefix_skip. exists "", ".". by rewrite !string_app_assoc.
Qed.

Section Resolve.

Variables (preferred : Z) (h : host).

(** C3. When the preferred port probes available, the resolution is the
    preferred port itself, not switched, with no message, whatever the
    [autoSwitch] flag; only the preferred port has been probed. *)
Theorem resolve_preferred_free (autoSwitch : option bool) :
  free h preferred ->
  getAvailablePort preferred autoSwitch h =
  ({| port := preferred; switched := false; message := None |},
   probed [preferred] h).
Proof.
  intros Hfree. by apply getAvailablePort_free.
Qed.

(** C4. When the preferred port is taken and [autoSwitch] is [false],
    the resolution is port -1, not switched, with a message that
    contains the preferred port number; the preferred port is the only
    port probed, so no scan takes place. *)
Theorem resolve_busy_no_switch :
  ~ free h preferred ->
  exists msg,
    getAvailablePort preferred (Some false) h =
    ({| port := -1; switched := false; message := Some msg |},
     probed [preferred] h) /\
    msg = "Port " +:+ pretty preferred +:+
      " is already in use. Please specify a different port in config.json or enable auto port switching." /\
    includes msg (pretty preferred).
Proof.
  intros Hbusy. eexists. split; [| split; [reflexivity |]].
  - by apply getAvailablePort_refused.
  - apply includes_middle.
Qed.

(** C5. When the preferred port is taken, [autoSwitch] is [true] and
    [preferred + 1 + k] is the first free port of the 50-port window
    [preferred + 1 .. preferred + 50], the resolution is that port,
    switched, with a message that contains both port numbers.  The
    window is the scan's default budget of 50: the resolution takes no
    budget of its own.  The host is one on which -1, the value the scan
    uses for "nothing found", is not a port that can be bound. *)
Theorem resolve_switch (autoSwitch : option bool) (k : Z) :
  default true autoSwitch = true ->
  ~ free h (-1) ->
  ~ free h preferred ->
  0 <= k < 50 ->
  (forall j, 0 <= j < k -> ~ free h (preferred + 1 + j)) ->
  free h (preferred + 1 + k) ->
  let found := preferred + 1 + k in
  exists msg,
    getAvailablePort preferred autoSwitch h =
    ({| port := found; switched := true; message := Some msg |},
     probed (preferred :: seqZ (preferred + 1) (k + 1)) h) /\
    msg = "Port " +:+ pretty preferred +:+
      " is in use, automatically switched to port " +:+ pretty found +:+ "." /\
    includes msg (pretty preferred) /\
    includes msg (pretty found).
Proof.
  intros Hswitch Hsentinel Hbusy Hk Hwindow Hfree found.
  eexists. split; [| split; [reflexivity | split]].
  - rewrite (getAvailablePort_busy _ _ _ Hbusy Hswitch).
    rewrite (findAvailablePort_first_free _ _ _ k); [| done | done | done].
    destruct (Z.eqb_spec (preferred + 1 + k) (-1)) as [Heq|_].
    + rewrite Heq in Hfree. contradiction.
    + by rewrite probed_probed.
  - apply includes_middle.
  - apply includes_prefix_skip, includes_prefix_skip, includes_middle.
Qed.

End Resolve.

(** C10. Every resolution satisfies: [switched] holds exactly when the
    port is not -1 and differs from the preferred port; a failure
    ([port = -1]) is never marked switched; and a switched resolution
    carries a port of at least [preferred + 1]. *)
Theorem resolve_invariant (preferred : Z) (autoSwitch : option bool) (h : host) :
  let r := fst (getAvailablePort preferred autoSwitch h) in
  (switched r = true <-> port r <> -1 /\ port r <> preferred) /\
  (port r = -1 -> switched r = false) /\
  (switched r = true -> preferred + 1 <= port r).
Proof.
  destruct (decide (free h preferred)) as [Hfree|Hbusy].
  { rewrite (getAvailablePort_free _ _ _ Hfree). simpl.
    repeat split; (done || tauto). }
  destruct (default true autoSwitch) eqn:Hswitch.
  2: { rewrite (getAvailablePort_refused _ _ _ Hbusy Hswitch). simpl.
       repeat split; (done || tauto). }
  rewrite (getAvailablePort_busy _ _ _ Hbusy Hswitch).
  pose proof (findAvailablePort_range (preferred + 1) None
                (probed [preferred] h)) as Hrange.
  destruct (findAvailablePort (preferred + 1) None (probed [preferred] h))
    as [availablePort h1].
  simpl in Hrange.
  destruct (Z.eqb_spec availablePort (-1)) as [Heq|Hne]; simpl.
  - repeat split; (done || tauto).
  - destruct Hrange as [Hs|Hr]; [contradiction |].
    repeat split; (done || lia).
Qed.

(** The scan reports "nothing found" as -1, and the resolution reads any
    -1 that way.  On a host that would let -1 itself be bound, a scan that
    stops at -1 is therefore reported as an exhausted range; this is the
    reason for the assumption on -1 in [resolve_switch]. *)
Remark sentinel_read_as_exhausted (h : host) :
  ~ free h (-2) -> free h (-1) ->
  port (fst (getAvailablePort (-2) None h)) = -1 /\
  switched (fst (getAvailablePort (-2) None h)) = false.
Proof.
  intros Hbusy Hfree.
  rewrite (getAvailablePort_busy (-2) None h Hbusy eq_refl).
  rewrite (findAvailablePort_first_free _ _ _ 0); [| done | lia | done].
  by split.
Qed.

(** ** The resolution on the sample hosts *)

Lemma resolve_preferred_free_witness :
  free sample_host 8081 /\
  getAvailablePort 8081 (Some false) sample_host =
  ({| port := 8081; switched := false; message := None |},
   probed [8081] sample_host).
Proof.
  assert (Hfree : free sample_host 8081) by by_evaluation.
  split; [exact Hfree |].
  exact (resolve_preferred_free 8081 sample_host (Some false) Hfree).
Defined.

Lemma resolve_busy_no_switch_witness :
  ~ free sample_host 8080 /\
  exists msg,
    getAvailablePort 8080 (Some false) sample_host =
    ({| port := -1; switched := false; message := Some msg |},
     probed [8080] sample_host) /\
    msg = "Port " +:+ pretty 8080 +:+
      " is already in use. Please specify a different port in config.json or enable auto port switching." /\
    includes msg (pretty 8080).
Proof.
  assert (Hbusy : ~ free sample_host 8080) by by_evaluation.
  split; [exact Hbusy |].
  exact (resolve_busy_no_switch 8080 sample_host Hbusy).
Defined.

Lemma resolve_switch_witness :
  exists msg,
    getAvailablePort 8080 None sample_host =
    ({| port := 8080 + 1 + 0; switched := true; message := Some msg |},
     probed (8080 :: seqZ (8080 + 1) (0 + 1)) sample_host) /\
    msg = "Port " +:+ pretty 8080 +:+
      " is in use, automatically switched to port " +:+
      pretty (8080 + 1 + 0) +:+ "." /\
    includes msg (pretty 8080) /\
    includes msg (pretty (8080 + 1 + 0)).
Proof.
  apply (resolve_switch 8080 sample_host None 0).
  - reflexivity.
  - by_evaluation.
  - by_evaluation.
  - lia.
  - intros j Hj. lia.
  - by_evaluation.
Defined.

(** The four outcomes, run on the sample hosts. *)

Example resolve_8081_free :
  fst (getAvailablePort 8081 (Some true) sample_host) =
  {| port := 8081; switched := false; message := None |}.
Proof. vm_compute. reflexivity. Qed.

Example resolve_8080_refused :
  fst (getAvailablePort 8080 (Some false) sample_host) =
  {| port := -1; switched := false;
     message := Some "Port 8080 is already in use. Please specify a different port in config.json or enable auto port switching." |}.
Proof. vm_compute. reflexivity. Qed.

Example resolve_8080_switched :
  fst (getAvailablePort 8080 (Some true) sample_host) =
  {| port := 8081; switched := true;
     message := Some "Port 8080 is in use, automatically switched to port 8081." |}.
Proof. vm_compute. reflexivity. Qed.

Example resolve_8080_exhausted :
  fst (getAvailablePort 8080 (Some true) crowded_host) =
  {| port := -1; switched := false;
     message := Some "Port 8080 is in use and no available ports found in range 8081-8130." |}.
Proof. vm_compute. reflexivity. Qed.

Example resolve_8080_exhausted_trace :
  probes (snd (getAvailablePort 8080 (Some true) crowded_host)) = seqZ 8080 51.
Proof. vm_compute. reflexivity. Qed.

(** * Further properties of the scan loop *)

(** Freeness is decidable port by port, so a range has a first free port
    or none. *)
Lemma first_free_or_none (h : host) (a : Z) (n : nat) :
  (forall j, 0 <= j < Z.of_nat n -> ~ free h (a + j)) \/
  (exists k, 0 <= k < Z.of_nat n /\ free h (a + k) /\
             forall j, 0 <= j < k -> ~ free h (a + j)).
Proof.
  induction n as [|n [Hbusy | (k & Hk & Hfree & Hmin)]].
  - left. intros j Hj. lia.
  - destruct (decide (free h (a + Z.of_nat n))) as [Hfree | Hlast].
    + right. exists (Z.of_nat n). split; [lia | by split].
    + left. intros j Hj.
      destruct (decide (j = Z.of_nat n)) as [-> | Hne]; [done |].
      apply Hbusy. lia.
  - right. exists k. split; [lia | by split].
Qed.

(** The two ways a scan can go. *)
Lemma findAvailablePort_cases start maxAttempts h :
  ((forall p, start <= p < start + default 50 maxAttempts -> ~ free h p) /\
   findAvailablePort start maxAttempts h =
   (-1, probed (seqZ start (default 50 maxAttempts)) h)) \/
  (exists k, 0 <= k < default 50 maxAttempts /\
             free h (start + k) /\
             (forall j, 0 <= j < k -> ~ free h (start + j)) /\
             findAvailablePort start maxAttempts h =
             (start + k, probed (seqZ start (k + 1)) h)).
Proof.
  destruct (first_free_or_none h start (Z.to_nat (default 50 maxAttempts)))
    as [Hbusy | (k & Hk & Hfree & Hmin)].
  - left.
    assert (Hall : forall p,
      start <= p < start + default 50 maxAttempts -> ~ free h p).
    { intros p Hp. replace p with (start + (p - start)) by lia.
      apply Hbusy. lia. }
    split; [exact Hall | by apply findAvailablePort_none_free].
  - right. exists k.
    assert (Hrange : 0 <= k < default 50 maxAttempts) by lia.
    do 3 (split; [done |]).
    by apply findAvailablePort_first_free.
Qed.

(** The loop walks over a run of taken ports, probing each once. *)
Lemma for_loop_skip (n : nat) : forall startPort maxAttempts i h,
  i + Z.of_nat n <= maxAttempts ->
  (forall j, i <= j < i + Z.of_nat n -> ~ free h (startPort + j)) ->
  for_loop startPort maxAttempts i h =
  for_loop startPort maxAttempts (i + Z.of_nat n)
    (probed (seqZ (startPort + i) (Z.of_nat n)) h).
Proof.
  induction n as [|n IH]; intros startPort maxAttempts i h Hle Hbusy.
  - rewrite seqZ_nil by lia. rewrite probed_nil. f_equal. lia.
  - rewrite for_loop_miss; [| lia | apply Hbusy; lia].
    rewrite (IH startPort maxAttempts (i + 1));
      [| lia | intros j Hj; rewrite free_probed; apply Hbusy; lia].
    rewrite probed_probed.
    replace (Z.of_nat (S n)) with (Z.of_nat n + 1) by lia.
    rewrite (seqZ_step (startPort + i)) by lia.
    f_equal; [lia |]. do 3 f_equal. lia.
Qed.

(** Entering the loop at counter [i + d] is entering, at counter [i], the
    loop of a scan that starts [d] ports later with [d] attempts less. *)
Lemma for_loop_shift (n : nat) : forall startPort maxAttempts d i h,
  maxAttempts - d - i <= Z.of_nat n ->
  for_loop startPort maxAttempts (i + d) h =
  for_loop (startPort + d) (maxAttempts - d) i h.
Proof.
  induction n as [|n IH]; intros startPort maxAttempts d i h Hn;
    rewrite (for_loop_body startPort), (for_loop_body (startPort + d));
    replace (startPort + d + i) with (startPort + (i + d)) by lia;
    destruct (decide (i + d < maxAttempts)), (decide (i < maxAttempts - d));
    try lia; try reflexivity.
  rewrite isPortAvailable_spec.
  destruct (bool_decide (free h (startPort + (i + d)))); [reflexivity |].
  replace (i + d + 1) with (i + 1 + d) by lia. apply IH. lia.
Qed.

Lemma findAvailablePort_skip start n m h :
  0 <= n -> 0 <= m ->
  (forall p, start <= p < start + n -> ~ free h p) ->
  findAvailablePort start (Some (n + m)) h =
  findAvailablePort (start + n) (Some m) (probed (seqZ start n) h).
Proof.
  intros Hn Hm Hbusy. unfold findAvailablePort. simpl.
  rewrite (for_loop_skip (Z.to_nat n)).
  - rewrite Z2Nat.id by lia.
    replace (start + 0) with start by lia.
    rewrite (for_loop_shift (Z.to_nat m) start (n + m) n 0) by lia.
    do 2 f_equal. lia.
  - rewrite Z2Nat.id; lia.
  - intros j Hj. apply Hbusy. rewrite Z2Nat.id in Hj; lia.
Qed.

(** * Further properties of the probe and the scan *)

(** X1. The probe answers [true] exactly when the port is free on the
    host, and on either answer it has called [listen] once and left the
    bound ports as they were. *)
Theorem probe_reflects_host (p : Z) (h : host) :
  (fst (isPortAvailable p h) = true <-> free h p) /\
  snd (isPortAvailable p h) = probed [p] h.
Proof.
  rewrite isPortAvailable_spec. simpl. split; [| reflexivity].
  apply bool_decide_eq_true.
Qed.

(** X2. A scan result other than -1 lies in the scanned range, is free on
    the host, and every port of the range below it is not free. *)
Theorem scan_result_is_first_free (start : Z) (maxAttempts : option Z) (h : host) :
  fst (findAvailablePort start maxAttempts h) <> -1 ->
  start <= fst (findAvailablePort start maxAttempts h)
    < start + default 50 maxAttempts /\
  free h (fst (findAvailablePort start maxAttempts h)) /\
  forall p, start <= p < fst (findAvailablePort start maxAttempts h) ->
            ~ free h p.
Proof.
  destruct (findAvailablePort_cases start maxAttempts h)
    as [[_ ->] | (k & Hk & Hfree & Hmin & ->)]; simpl; [done |].
  intros _. split; [lia | split; [done |]].
  intros p Hp. replace p with (start + (p - start)) by lia.
  apply Hmin. lia.
Qed.

(** On the event layer: from a non-negative start the scan gives -1
    exactly when no port of the range is free. *)
Lemma findAvailablePort_fails_iff (start : Z) (maxAttempts : option Z) (h : host) :
  0 <= start ->
  fst (findAvailablePort start maxAttempts h) = -1 <->
  forall p, start <= p < start + default 50 maxAttempts -> ~ free h p.
Proof.
  intros Hstart.
  destruct (findAvailablePort_cases start maxAttempts h)
    as [[Hbusy ->] | (k & Hk & Hfree & Hmin & ->)]; simpl.
  - by split.
  - split; [lia |]. intros Hbusy. destruct (Hbusy (start + k)); [lia | done].
Qed.

(** X4. Whatever the host, the scan calls [listen] on a run of consecutive
    ports that begins at the start port and is no longer than the attempt
    budget, and leaves the bound ports as they were. *)
Theorem scan_trace (start : Z) (maxAttempts : option Z) (h : host) :
  exists n,
    0 <= n <= Z.max 0 (default 50 maxAttempts) /\
    snd (findAvailablePort start maxAttempts h) = probed (seqZ start n) h.
Proof.
  destruct (findAvailablePort_cases start maxAttempts h)
    as [[_ ->] | (k & Hk & _ & _ & ->)]; simpl.
  - exists (Z.max 0 (default 50 maxAttempts)). split; [lia |].
    destruct (Z.max_spec 0 (default 50 maxAttempts)) as [[_ ->] | [Hle ->]];
      [reflexivity |].
    by rewrite !seqZ_nil by lia.
  - exists (k + 1). split; [lia | reflexivity].
Qed.


(** X6. A port found with some budget is found, with the same probes, with
    any larger budget. *)
Theorem scan_budget_monotone (start m m' : Z) (h : host) :
  fst (findAvailablePort start (Some m) h) <> -1 ->
  m <= m' ->
  findAvailablePort start (Some m') h = findAvailablePort start (Some m) h.
Proof.
  destruct (findAvailablePort_cases start (Some m) h)
    as [[_ ->] | (k & Hk & Hfree & Hmin & ->)]; simpl; [done |].
  intros _ Hle. simpl in Hk.
  apply findAvailablePort_first_free; simpl; (done || lia).
Qed.

Lemma scan_result_is_first_free_witness :
  8080 <= fst (findAvailablePort 8080 None sample_host) < 8080 + default 50 None /\
  free sample_host (fst (findAvailablePort 8080 None sample_host)) /\
  forall p, 8080 <= p < fst (findAvailablePort 8080 None sample_host) ->
            ~ free sample_host p.
Proof.
  apply (scan_result_is_first_free 8080 None sample_host).
  intros Heq. vm_compute in Heq. discriminate.
Defined.


Lemma scan_budget_monotone_witness :
  findAvailablePort 8080 (Some 50) sample_host =
  findAvailablePort 8080 (Some 2) sample_host.
Proof.
  apply (scan_budget_monotone 8080 2 50 sample_host); [| lia].
  intros Heq. vm_compute in Heq. discriminate.
Defined.

(** * Further properties of the resolution *)

(** With switching enabled, the resolution carries the result of the scan
    it runs, -1 included, and ends on the host the scan ends on. *)
Lemma getAvailablePort_busy_port preferred autoSwitch h :
  ~ free h preferred ->
  default true autoSwitch = true ->
  port (fst (getAvailablePort preferred autoSwitch h)) =
    fst (findAvailablePort (preferred + 1) None (probed [preferred] h)) /\
  switched (fst (getAvailablePort preferred autoSwitch h)) =
    negb (fst (findAvailablePort (preferred + 1) None (probed [preferred] h))
          =? -1) /\
  is_Some (message (fst (getAvailablePort preferred autoSwitch h))) /\
  snd (getAvailablePort preferred autoSwitch h) =
    snd (findAvailablePort (preferred + 1) None (probed [preferred] h)).
Proof.
  intros Hbusy Hswitch.
  rewrite (getAvailablePort_busy _ _ _ Hbusy Hswitch).
  destruct (findAvailablePort (preferred + 1) None (probed [preferred] h))
    as [availablePort h1].
  cbn [fst snd].
  destruct (Z.eqb_spec availablePort (-1)) as [-> | Hne]; simpl;
    (do 2 (split; [reflexivity |])); (split; [by eexists | reflexivity]).
Qed.

(** The host a resolution ends on. *)
Lemma getAvailablePort_trace preferred autoSwitch h :
  exists n,
    1 <= n <= (if default true autoSwitch then 51 else 1) /\
    snd (getAvailablePort preferred autoSwitch h) =
    probed (seqZ preferred n) h.
Proof.
  destruct (decide (free h preferred)) as [Hfree | Hbusy].
  { exists 1. rewrite (getAvailablePort_free _ _ _ Hfree).
    split; [destruct (default true autoSwitch); lia | reflexivity]. }
  destruct (default true autoSwitch) eqn:Hswitch.
  2: { exists 1. rewrite (getAvailablePort_refused _ _ _ Hbusy Hswitch).
       split; [lia | reflexivity]. }
  destruct (getAvailablePort_busy_port _ _ _ Hbusy Hswitch)
    as (_ & _ & _ & ->).
  destruct (findAvailablePort_cases (preferred + 1) None (probed [preferred] h))
    as [[_ ->] | (k & Hk & _ & _ & ->)]; simpl in *.
  - exists 51. split; [lia |]. rewrite probed_probed.
    by rewrite <- (seqZ_step preferred 50) by lia.
  - exists (k + 1 + 1). split; [lia |]. rewrite probed_probed.
    by rewrite <- (seqZ_step preferred (k + 1)) by lia.
Qed.

(** The resolution reads the host only through which ports are free. *)
Lemma findAvailablePort_same_free start maxAttempts h1 h2 :
  same_free h1 h2 ->
  fst (findAvailablePort start maxAttempts h1) =
  fst (findAvailablePort start maxAttempts h2).
Proof.
  intros Hsame.
  destruct (findAvailablePort_cases start maxAttempts h1)
    as [[Hbusy ->] | (k & Hk & Hfree & Hmin & ->)]; simpl.
  - rewrite findAvailablePort_none_free; [reflexivity |].
    intros p Hp Hf. apply (Hbusy p Hp). by apply Hsame.
  - rewrite (findAvailablePort_first_free _ _ _ k); [reflexivity | done | |].
    + intros j Hj Hf. apply (Hmin j Hj). by apply Hsame.
    + by apply Hsame.
Qed.

Lemma getAvailablePort_same_free preferred autoSwitch h1 h2 :
  same_free h1 h2 ->
  fst (getAvailablePort preferred autoSwitch h1) =
  fst (getAvailablePort preferred autoSwitch h2).
Proof.
  intros Hsame.
  destruct (decide (free h1 preferred)) as [Hfree | Hbusy].
  { rewrite (getAvailablePort_free _ _ _ Hfree).
    apply Hsame in Hfree. by rewrite (getAvailablePort_free _ _ _ Hfree). }
  assert (Hbusy2 : ~ free h2 preferred) by (intros Hf; by apply Hbusy, Hsame).
  destruct (default true autoSwitch) eqn:Hswitch.
  2: { by rewrite (getAvailablePort_refused _ _ _ Hbusy Hswitch),
                  (getAvailablePort_refused _ _ _ Hbusy2 Hswitch). }
  rewrite (getAvailablePort_busy _ _ _ Hbusy Hswitch),
          (getAvailablePort_busy _ _ _ Hbusy2 Hswitch).
  pose proof (findAvailablePort_same_free (preferred + 1) None
                (probed [preferred] h1) (probed [preferred] h2)) as Heq.
  destruct (findAvailablePort (preferred + 1) None (probed [preferred] h1))
    as [r1 h1'].
  destruct (findAvailablePort (preferred + 1) None (probed [preferred] h2))
    as [r2 h2'].
  simpl in Heq. rewrite Heq; [| exact Hsame].
  by destruct (r2 =? -1).
Qed.

(** A resolved port is the first free port at or after the preferred one. *)
Lemma getAvailablePort_first_free preferred autoSwitch h :
  port (fst (getAvailablePort preferred autoSwitch h)) <> -1 ->
  preferred <= port (fst (getAvailablePort preferred autoSwitch h))
    <= preferred + 50 /\
  free h (port (fst (getAvailablePort preferred autoSwitch h))) /\
  forall q, preferred <= q < port (fst (getAvailablePort preferred autoSwitch h)) ->
            ~ free h q.
Proof.
  destruct (decide (free h preferred)) as [Hfree | Hbusy].
  { rewrite (getAvailablePort_free _ _ _ Hfree). simpl. intros _.
    split; [lia | split; [done |]]. intros q Hq. lia. }
  destruct (default true autoSwitch) eqn:Hswitch.
  2: { by rewrite (getAvailablePort_refused _ _ _ Hbusy Hswitch). }
  destruct (getAvailablePort_busy_port _ _ _ Hbusy Hswitch) as (-> & _).
  destruct (findAvailablePort_cases (preferred + 1) None (probed [preferred] h))
    as [[_ ->] | (k & Hk & Hfree & Hmin & ->)]; simpl in *; [done |].
  intros _. split; [lia | split; [done |]].
  intros q Hq. destruct (decide (q = preferred)) as [-> | Hne]; [done |].
  replace q with (preferred + 1 + (q - preferred - 1)) by lia.
  apply Hmin. lia.
Qed.

(** X7. With switching enabled, the resolution returns the port that a
    51-port scan from the preferred port returns, after the same probes. *)
Theorem resolve_is_scan (preferred : Z) (autoSwitch : option bool) (h : host) :
  default true autoSwitch = true ->
  port (fst (getAvailablePort preferred autoSwitch h)) =
    fst (findAvailablePort preferred (Some 51) h) /\
  snd (getAvailablePort preferred autoSwitch h) =
    snd (findAvailablePort preferred (Some 51) h).
Proof.
  intros Hswitch. destruct (decide (free h preferred)) as [Hfree | Hbusy].
  - rewrite (getAvailablePort_free _ _ _ Hfree).
    rewrite (findAvailablePort_first_free preferred (Some 51) h 0);
      [| simpl; lia | intros j Hj; lia | by rewrite Z.add_0_r].
    simpl. split; [lia | reflexivity].
  - destruct (getAvailablePort_busy_port _ _ _ Hbusy Hswitch)
      as (-> & _ & _ & ->).
    change (Some 51) with (Some (1 + 50)).
    rewrite (findAvailablePort_skip preferred 1 50 h); [by split | lia | lia |].
    intros q Hq. by replace q with preferred by lia.
Qed.

(** X8. The resolution carries no message exactly when the preferred port
    is free. *)
Theorem resolve_message_iff (preferred : Z) (autoSwitch : option bool) (h : host) :
  message (fst (getAvailablePort preferred autoSwitch h)) = None <->
  free h preferred.
Proof.
  destruct (decide (free h preferred)) as [Hfree | Hbusy].
  { by rewrite (getAvailablePort_free _ _ _ Hfree). }
  destruct (default true autoSwitch) eqn:Hswitch.
  - destruct (getAvailablePort_busy_port _ _ _ Hbusy Hswitch)
      as (_ & _ & [msg ->] & _). by split.
  - rewrite (getAvailablePort_refused _ _ _ Hbusy Hswitch). by split.
Qed.

(** X9. A resolved port other than -1 is free on the host, lies between
    the preferred port and the preferred port plus 50, and no port from
    the preferred one up to it is free. *)
Theorem resolve_port_is_first_free (preferred : Z) (autoSwitch : option bool) (h : host) :
  port (fst (getAvailablePort preferred autoSwitch h)) <> -1 ->
  preferred <= port (fst (getAvailablePort preferred autoSwitch h))
    <= preferred + 50 /\
  free h (port (fst (getAvailablePort preferred autoSwitch h))) /\
  forall q, preferred <= q < port (fst (getAvailablePort preferred autoSwitch h)) ->
            ~ free h q.
Proof. apply getAvailablePort_first_free. Qed.

(** On the event layer: for a non-negative preferred port the resolution
    carries port -1 exactly when the preferred port is not free and either
    switching is disabled or none of the next 50 ports is free. *)
Lemma getAvailablePort_fails_iff (preferred : Z) (autoSwitch : option bool) (h : host) :
  0 <= preferred ->
  port (fst (getAvailablePort preferred autoSwitch h)) = -1 <->
  ~ free h preferred /\
  (default true autoSwitch = false \/
   forall q, preferred + 1 <= q <= preferred + 50 -> ~ free h q).
Proof.
  intros Hpos. destruct (decide (free h preferred)) as [Hfree | Hbusy].
  { rewrite (getAvailablePort_free _ _ _ Hfree). simpl.
    split; [lia | by intros [? _]]. }
  destruct (default true autoSwitch) eqn:Hswitch.
  2: { rewrite (getAvailablePort_refused _ _ _ Hbusy Hswitch). simpl.
       split; [intros _; split; [done | by left] | done]. }
  destruct (getAvailablePort_busy_port _ _ _ Hbusy Hswitch) as (-> & _).
  destruct (findAvailablePort_cases (preferred + 1) None (probed [preferred] h))
    as [[Hnone ->] | (k & Hk & Hfree & Hmin & ->)]; simpl in *.
  - split; [intros _ | done]. split; [done | right].
    intros q Hq. apply Hnone. lia.
  - split; [lia |]. intros [_ [Hoff | Hnone]]; [done |].
    destruct (Hnone (preferred + 1 + k)); [lia | done].
Qed.

(** X11. Whatever the host, the resolution calls [listen] on a run of
    consecutive ports that begins at the preferred port: at most 51 of
    them, exactly one when switching is disabled; it leaves the bound
    ports as they were. *)
Theorem resolve_trace (preferred : Z) (autoSwitch : option bool) (h : host) :
  exists n,
    1 <= n <= (if default true autoSwitch then 51 else 1) /\
    snd (getAvailablePort preferred autoSwitch h) =
    probed (seqZ preferred n) h.
Proof. apply getAvailablePort_trace. Qed.

(** X12. On two hosts with the same free ports the resolution gives the
    same result, message included: why a port is not free (taken, refused,
    or any other error) and what was probed before make no difference. *)
Theorem resolve_depends_on_free_ports
    (preferred : Z) (autoSwitch : option bool) (h1 h2 : host) :
  same_free h1 h2 ->
  fst (getAvailablePort preferred autoSwitch h1) =
  fst (getAvailablePort preferred autoSwitch h2).
Proof. apply getAvailablePort_same_free. Qed.

(** X13. Resolving again right after a resolution gives the same result:
    a call leaves nothing behind that a later call can see. *)
Theorem resolve_repeatable (preferred : Z) (autoSwitch : option bool) (h : host) :
  fst (getAvailablePort preferred autoSwitch
         (snd (getAvailablePort preferred autoSwitch h))) =
  fst (getAvailablePort preferred autoSwitch h).
Proof.
  destruct (getAvailablePort_trace preferred autoSwitch h) as (n & _ & ->).
  apply getAvailablePort_same_free. intros q. apply free_probed.
Qed.

(** X14. A resolved port other than -1 probes available right after the
    resolution. *)
Theorem resolved_port_probes_available
    (preferred : Z) (autoSwitch : option bool) (h : host) :
  port (fst (getAvailablePort preferred autoSwitch h)) <> -1 ->
  fst (isPortAvailable (port (fst (getAvailablePort preferred autoSwitch h)))
         (snd (getAvailablePort preferred autoSwitch h))) = true.
Proof.
  intros Hport.
  destruct (getAvailablePort_first_free _ _ _ Hport) as (_ & Hfree & _).
  destruct (getAvailablePort_trace preferred autoSwitch h) as (n & _ & ->).
  rewrite isPortAvailable_free; [reflexivity | by apply free_probed].
Qed.

Lemma same_free_sample_relabelled : same_free sample_host relabelled_host.
Proof.
  intros q. unfold free, sample_host, relabelled_host. cbn [fault bound].
  destruct (Z.ltb_spec q 1024) as [Hlt | Hge].
  { split; intros [Hf _]; discriminate. }
  destruct (Z.eqb_spec q 8080) as [-> | Hne].
  - split; [intros [_ Hb] | intros [Hf _]; discriminate].
    destruct Hb. by apply elem_of_singleton.
  - split; intros _; (split; [reflexivity |]).
    + apply not_elem_of_empty.
    + by intros Hin%elem_of_singleton.
Qed.

Lemma resolve_is_scan_witness :
  port (fst (getAvailablePort 8080 None sample_host)) =
    fst (findAvailablePort 8080 (Some 51) sample_host) /\
  snd (getAvailablePort 8080 None sample_host) =
    snd (findAvailablePort 8080 (Some 51) sample_host).
Proof. apply (resolve_is_scan 8080 None sample_host). reflexivity. Defined.

Lemma resolve_port_is_first_free_witness :
  8080 <= port (fst (getAvailablePort 8080 None sample_host)) <= 8080 + 50 /\
  free sample_host (port (fst (getAvailablePort 8080 None sample_host))) /\
  forall q, 8080 <= q < port (fst (getAvailablePort 8080 None sample_host)) ->
            ~ free sample_host q.
Proof.
  apply (resolve_port_is_first_free 8080 None sample_host).
  intros Heq. vm_compute in Heq. discriminate.
Defined.

Lemma resolve_depends_on_free_ports_witness :
  same_free sample_host relabelled_host /\
  fst (getAvailablePort 8080 None sample_host) =
  fst (getAvailablePort 8080 None relabelled_host).
Proof.
  split; [exact same_free_sample_relabelled |].
  apply (resolve_depends_on_free_ports 8080 None sample_host relabelled_host).
  exact same_free_sample_relabelled.
Defined.

Lemma resolved_port_probes_available_witness :
  fst (isPortAvailable (port (fst (getAvailablePort 8080 None sample_host)))
         (snd (getAvailablePort 8080 None sample_host))) = true.
Proof.
  apply (resolved_port_probes_available 8080 None sample_host).
  intros Heq. vm_compute in Heq. discriminate.
Defined.

(** * The checked layer *)

Lemma validatePort_true p : validatePort p = true <-> 0 <= p <= 65535.
Proof. unfold validatePort. rewrite andb_true_iff. lia. Qed.

Lemma probed_inj tr1 tr2 h : probed tr1 h = probed tr2 h -> tr1 = tr2.
Proof.
  unfold probed. intros Heq. injection Heq as Heq.
  by apply app_inv_head in Heq.
Qed.

Lemma lift_fulfilled {A} (m : M A) (h h1 : host) (a : A) :
  m h = (a, h1) -> Checked.lift m h = (Fulfilled a, h1).
Proof. unfold Checked.lift. by intros ->. Qed.

(** On a port number the checked probe is the probe of the event layer. *)
Lemma checked_isPortAvailable_port p h :
  0 <= p <= 65535 ->
  Checked.isPortAvailable p h = (Fulfilled (bool_decide (free h p)), probed [p] h).
Proof.
  intros Hp%validatePort_true.
  pose proof (isPortAvailable_spec p h) as Hspec.
  unfold isPortAvailable, bind in Hspec.
  unfold Checked.isPortAvailable, Checked.await, Checked.listen.
  rewrite Hp.
  destruct (server_listen p h) as [ev h1] eqn:Hlisten.
  rewrite (lift_fulfilled _ _ _ _ Hlisten).
  destruct ev; by apply lift_fulfilled.
Qed.

(** On any other number the promise of the probe is rejected. *)
Lemma checked_isPortAvailable_other p h :
  ~ 0 <= p <= 65535 ->
  Checked.isPortAvailable p h = (Rejected "ERR_SOCKET_BAD_PORT", probed [p] h).
Proof.
  intros Hp. unfold Checked.isPortAvailable, Checked.await, Checked.listen.
  destruct (validatePort p) eqn:Hv; [by apply validatePort_true in Hv |].
  reflexivity.
Qed.

Lemma checked_for_loop_body startPort maxAttempts i h :
  Checked.for_loop startPort maxAttempts i h =
  if decide (i < maxAttempts) then
    match Checked.isPortAvailable (startPort + i) h with
    | (Fulfilled true, h1) => (Fulfilled (startPort + i), h1)
    | (Fulfilled false, h1) =>
        Checked.for_loop startPort maxAttempts (i + 1) h1
    | (Rejected code, h1) => (Rejected code, h1)
    end
  else (Fulfilled (-1), h).
Proof.
  rewrite Checked.for_loop_equation_1.
  destruct (decide (i < maxAttempts)); simpl; [| reflexivity].
  destruct (Checked.isPortAvailable (startPort + i) h) as [[[]|code] h1];
    reflexivity.
Qed.

(** A run of the loop that hands only port numbers to [listen] is the
    run of the event layer, and its promise is fulfilled. *)
Lemma checked_for_loop_agrees (n : nat) : forall startPort maxAttempts i h tr,
  maxAttempts - i <= Z.of_nat n ->
  snd (for_loop startPort maxAttempts i h) = probed tr h ->
  ports_only tr ->
  Checked.for_loop startPort maxAttempts i h =
  (Fulfilled (fst (for_loop startPort maxAttempts i h)), probed tr h).
Proof.
  induction n as [|n IH]; intros startPort maxAttempts i h tr Hn;
    rewrite checked_for_loop_body, for_loop_body;
    destruct (decide (i < maxAttempts)) as [Hlt | Hge];
    try lia; try (by intros <-).
  rewrite isPortAvailable_spec.
  destruct (bool_decide (free h (startPort + i))) eqn:Hfree.
  - simpl. intros <-%probed_inj Hports.
    apply Forall_cons_1 in Hports as [Hp _].
    by rewrite (checked_isPortAvailable_port _ _ Hp), Hfree.
  - destruct (for_loop_result startPort maxAttempts (i + 1)
                (probed [startPort + i] h)) as [_ [tr' Htr']].
    intros Htr Hports. rewrite Htr', probed_probed in Htr.
    apply probed_inj in Htr as <-.
    apply Forall_app in Hports as [[Hp _]%Forall_cons_1 Hports'].
    rewrite (checked_isPortAvailable_port _ _ Hp), Hfree.
    rewrite (IH _ _ _ _ tr'); [| lia | done | done].
    by rewrite probed_probed.
Qed.

(** The loop that walks over taken ports up to 65535 and then reaches
    65536: [listen] throws there and the promise of the scan is rejected. *)
Lemma checked_for_loop_overrun (n : nat) : forall startPort maxAttempts i h,
  startPort + i + Z.of_nat n = 65536 ->
  0 <= startPort + i ->
  i + Z.of_nat n < maxAttempts ->
  (forall j, i <= j < i + Z.of_nat n -> ~ free h (startPort + j)) ->
  Checked.for_loop startPort maxAttempts i h =
  (Rejected "ERR_SOCKET_BAD_PORT",
   probed (seqZ (startPort + i) (Z.of_nat n + 1)) h).
Proof.
  induction n as [|n IH]; intros startPort maxAttempts i h Htop Hlow Hlt Hbusy;
    rewrite checked_for_loop_body;
    (destruct (decide (i < maxAttempts)); [| lia]).
  - rewrite checked_isPortAvailable_other by lia. reflexivity.
  - rewrite checked_isPortAvailable_port by lia.
    rewrite bool_decide_eq_false_2 by (apply Hbusy; lia).
    rewrite (IH startPort maxAttempts (i + 1));
      [| lia | lia | lia | intros j Hj; rewrite free_probed; apply Hbusy; lia].
    rewrite probed_probed.
    replace (Z.of_nat (S n) + 1) with (Z.of_nat n + 1 + 1) by lia.
    rewrite (seqZ_step (startPort + i)) by lia.
    do 4 f_equal. lia.
Qed.

Lemma ports_only_seqZ a n :
  0 <= a -> (0 < n -> a + n <= 65536) -> ports_only (seqZ a n).
Proof. intros Ha Hn. apply Forall_seqZ. intros p Hp. lia. Qed.

Lemma findAvailablePort_trace start maxAttempts h :
  exists n,
    0 <= n <= Z.max 0 (default 50 maxAttempts) /\
    snd (findAvailablePort start maxAttempts h) = probed (seqZ start n) h.
Proof.
  destruct (findAvailablePort_cases start maxAttempts h)
    as [[_ ->] | (k & Hk & _ & _ & ->)]; simpl.
  - exists (Z.max 0 (default 50 maxAttempts)). split; [lia |].
    destruct (Z.max_spec 0 (default 50 maxAttempts)) as [[_ ->] | [Hle ->]];
      [reflexivity |].
    by rewrite !seqZ_nil by lia.
  - exists (k + 1). split; [lia | reflexivity].
Qed.

(** A scan that hands only port numbers to [listen] is the scan of the
    event layer, and its promise is fulfilled. *)
Lemma checked_findAvailablePort_agrees start maxAttempts h tr :
  snd (findAvailablePort start maxAttempts h) = probed tr h ->
  ports_only tr ->
  Checked.findAvailablePort start maxAttempts h =
  (Fulfilled (fst (findAvailablePort start maxAttempts h)), probed tr h).
Proof.
  unfold Checked.findAvailablePort, findAvailablePort.
  apply (checked_for_loop_agrees (Z.to_nat (default 50 maxAttempts))). lia.
Qed.

Lemma checked_findAvailablePort_in_range start maxAttempts h :
  0 <= start -> start + default 50 maxAttempts <= 65536 ->
  Checked.findAvailablePort start maxAttempts h =
  (Fulfilled (fst (findAvailablePort start maxAttempts h)),
   snd (findAvailablePort start maxAttempts h)).
Proof.
  intros Hlow Hhigh.
  destruct (findAvailablePort_trace start maxAttempts h) as (n & Hn & Htr).
  rewrite (checked_findAvailablePort_agrees _ _ _ _ Htr), Htr; [done |].
  apply ports_only_seqZ; lia.
Qed.

(** The checked resolution once a preferred port number has probed taken
    and switching is enabled. *)
Lemma checked_getAvailablePort_busy preferred autoSwitch h :
  0 <= preferred <= 65535 ->
  ~ free h preferred ->
  default true autoSwitch = true ->
  Checked.getAvailablePort preferred autoSwitch h =
  match Checked.findAvailablePort (preferred + 1) None (probed [preferred] h) with
  | (Fulfilled availablePort, h1) =>
      (Fulfilled
         (if availablePort =? -1 then
            {| port := -1;
               switched := false;
               message := Some ("Port " +:+ pretty preferred +:+
                 " is in use and no available ports found in range " +:+
                 pretty (preferred + 1) +:+ "-" +:+
                 pretty (preferred + 50) +:+ ".") |}
          else
            {| port := availablePort;
               switched := true;
               message := Some ("Port " +:+ pretty preferred +:+
                 " is in use, automatically switched to port " +:+
                 pretty availablePort +:+ ".") |}),
       h1)
  | (Rejected code, h1) => (Rejected code, h1)
  end.
Proof.
  intros Hport Hbusy Hswitch.
  unfold Checked.getAvailablePort, Checked.await. rewrite Hswitch.
  rewrite (checked_isPortAvailable_port _ _ Hport).
  rewrite (bool_decide_eq_false_2 _ Hbusy). simpl.
  destruct (Checked.findAvailablePort (preferred + 1) None (probed [preferred] h))
    as [[availablePort | code] h1]; [| reflexivity].
  by destruct (availablePort =? -1).
Qed.

(** A resolution that hands only port numbers to [listen] is the
    resolution of the event layer, and its promise is fulfilled. *)
Lemma checked_getAvailablePort_agrees preferred autoSwitch h tr :
  snd (getAvailablePort preferred autoSwitch h) = probed tr h ->
  ports_only tr ->
  Checked.getAvailablePort preferred autoSwitch h =
  (Fulfilled (fst (getAvailablePort preferred autoSwitch h)), probed tr h).
Proof.
  destruct (decide (free h preferred)) as [Hfree | Hbusy].
  { rewrite (getAvailablePort_free _ _ _ Hfree). simpl.
    intros <-%probed_inj [Hport _]%Forall_cons_1.
    unfold Checked.getAvailablePort, Checked.await.
    rewrite (checked_isPortAvailable_port _ _ Hport).
    by rewrite (bool_decide_eq_true_2 _ Hfree). }
  destruct (default true autoSwitch) eqn:Hswitch.
  2: { rewrite (getAvailablePort_refused _ _ _ Hbusy Hswitch). simpl.
       intros <-%probed_inj [Hport _]%Forall_cons_1.
       unfold Checked.getAvailablePort, Checked.await. rewrite Hswitch.
       rewrite (checked_isPortAvailable_port _ _ Hport).
       by rewrite (bool_decide_eq_false_2 _ Hbusy). }
  rewrite (getAvailablePort_busy _ _ _ Hbusy Hswitch).
  destruct (findAvailablePort_trace (preferred + 1) None (probed [preferred] h))
    as (n & _ & Hscan).
  rewrite probed_probed in Hscan.
  intros Htr Hports.
  assert (Heq : tr = [preferred] ++ seqZ (preferred + 1) n).
  { apply (probed_inj _ _ h). rewrite <- Htr, <- Hscan.
    destruct (findAvailablePort (preferred + 1) None (probed [preferred] h))
      as [r h1]. by destruct (r =? -1). }
  subst tr. apply Forall_app in Hports as [[Hport _]%Forall_cons_1 Hports].
  rewrite (checked_getAvailablePort_busy _ _ _ Hport Hbusy Hswitch).
  rewrite <- probed_probed in Hscan.
  rewrite (checked_findAvailablePort_agrees _ _ _ _ Hscan Hports).
  rewrite probed_probed.
  destruct (findAvailablePort (preferred + 1) None (probed [preferred] h))
    as [r h1]. cbn [fst snd]. by destruct (r =? -1).
Qed.

Lemma checked_getAvailablePort_in_range preferred autoSwitch h :
  0 <= preferred -> preferred + 50 <= 65535 ->
  Checked.getAvailablePort preferred autoSwitch h =
  (Fulfilled (fst (getAvailablePort preferred autoSwitch h)),
   snd (getAvailablePort preferred autoSwitch h)).
Proof.
  intros Hlow Hhigh.
  destruct (getAvailablePort_trace preferred autoSwitch h) as (n & Hn & Htr).
  rewrite (checked_getAvailablePort_agrees _ _ _ _ Htr), Htr; [done |].
  apply ports_only_seqZ; [lia |]. destruct (default true autoSwitch); lia.
Qed.

(** * Scans and resolutions that reach the end of the port range *)

(** C2. The code does not return -1 for every exhausted range.  From a
    start port whose range runs past 65535, with no free port from the
    start up to 65535, the scan probes those ports, hands 65536 to
    [listen], and its promise is rejected with [ERR_SOCKET_BAD_PORT]
    where the claim, and the comment above the function, give -1. *)
Theorem scan_rejects_past_last_port
    (start : Z) (maxAttempts : option Z) (h : host) :
  0 <= start <= 65535 ->
  65536 < start + default 50 maxAttempts ->
  (forall p, start <= p <= 65535 -> ~ free h p) ->
  Checked.findAvailablePort start maxAttempts h =
  (Rejected "ERR_SOCKET_BAD_PORT", probed (seqZ start (65536 - start + 1)) h).
Proof.
  intros Hstart Hpast Hbusy. unfold Checked.findAvailablePort.
  rewrite (checked_for_loop_overrun (Z.to_nat (65536 - start)));
    rewrite ?Z2Nat.id by lia; try lia.
  - do 3 f_equal. lia.
  - intros j Hj. apply Hbusy. lia.
Qed.

(** C6. The code does not report every exhausted window.  For a preferred
    port from 65486 to 65535 that is taken, with switching enabled and no
    free port from it up to 65535, the window runs past 65535: the scan
    hands 65536 to [listen] and the promise of the resolution is rejected
    with [ERR_SOCKET_BAD_PORT] where the claim gives port -1 and a
    message naming the range. *)
Theorem resolve_rejects_past_last_port
    (preferred : Z) (autoSwitch : option bool) (h : host) :
  default true autoSwitch = true ->
  65486 <= preferred <= 65535 ->
  (forall p, preferred <= p <= 65535 -> ~ free h p) ->
  Checked.getAvailablePort preferred autoSwitch h =
  (Rejected "ERR_SOCKET_BAD_PORT",
   probed (seqZ preferred (65536 - preferred + 1)) h).
Proof.
  intros Hswitch Hport Hbusy.
  rewrite checked_getAvailablePort_busy; [| lia | apply Hbusy; lia | done].
  unfold Checked.findAvailablePort.
  rewrite (checked_for_loop_overrun (Z.to_nat (65535 - preferred)));
    rewrite ?Z2Nat.id by lia; try (simpl; lia).
  - rewrite probed_probed.
    replace (65536 - preferred + 1) with (65535 - preferred + 1 + 1) by lia.
    rewrite (seqZ_step preferred) by lia.
    do 4 f_equal. lia.
  - intros j Hj. rewrite free_probed. apply Hbusy. lia.
Qed.

Lemma top_host_taken p : 65534 <= p <= 65535 -> ~ free top_host p.
Proof.
  intros Hp [_ Hb]. apply Hb. unfold top_host. cbn [bound].
  assert (p = 65534 \/ p = 65535) as [-> | ->] by lia; set_solver.
Qed.

Lemma scan_rejects_past_last_port_witness :
  Checked.findAvailablePort 65534 (Some 5) top_host =
  (Rejected "ERR_SOCKET_BAD_PORT",
   probed (seqZ 65534 (65536 - 65534 + 1)) top_host).
Proof.
  apply (scan_rejects_past_last_port 65534 (Some 5) top_host).
  - lia.
  - simpl. lia.
  - exact top_host_taken.
Defined.

Lemma resolve_rejects_past_last_port_witness :
  Checked.getAvailablePort 65535 None top_host =
  (Rejected "ERR_SOCKET_BAD_PORT",
   probed (seqZ 65535 (65536 - 65535 + 1)) top_host).
Proof.
  apply (resolve_rejects_past_last_port 65535 None top_host).
  - reflexivity.
  - lia.
  - intros p Hp. apply top_host_taken. lia.
Defined.

(** * Scans and resolutions within the port range *)

(** X3. For a scan whose range lies within the ports 0 to 65535, the
    promise is fulfilled, and its value is -1 exactly when no port of the
    range is free. *)
Theorem scan_fails_iff (start : Z) (maxAttempts : option Z) (h : host) :
  0 <= start ->
  start + default 50 maxAttempts <= 65536 ->
  exists r,
    fst (Checked.findAvailablePort start maxAttempts h) = Fulfilled r /\
    (r = -1 <->
     forall p, start <= p < start + default 50 maxAttempts -> ~ free h p).
Proof.
  intros Hlow Hhigh. eexists.
  rewrite checked_findAvailablePort_in_range by done.
  split; [reflexivity |]. by apply findAvailablePort_fails_iff.
Qed.

(** X10. For a preferred port with itself and the 50 ports after it within
    0 to 65535, the promise of the resolution is fulfilled, and its record
    carries port -1 exactly when the preferred port is not free and either
    switching is disabled or none of the next 50 ports is free. *)
Theorem resolve_fails_iff (preferred : Z) (autoSwitch : option bool) (h : host) :
  0 <= preferred ->
  preferred + 50 <= 65535 ->
  exists r,
    fst (Checked.getAvailablePort preferred autoSwitch h) = Fulfilled r /\
    (port r = -1 <->
     ~ free h preferred /\
     (default true autoSwitch = false \/
      forall q, preferred + 1 <= q <= preferred + 50 -> ~ free h q)).
Proof.
  intros Hlow Hhigh. eexists.
  rewrite checked_getAvailablePort_in_range by done.
  split; [reflexivity |]. by apply getAvailablePort_fails_iff.
Qed.

(** X15. For a scan whose range lies within the ports 0 to 65535 and holds
    no free port, the promise is fulfilled with -1 after every port of the
    range has been probed, in order. *)
Theorem scan_exhausted_in_range (start : Z) (maxAttempts : option Z) (h : host) :
  0 <= start ->
  start + default 50 maxAttempts <= 65536 ->
  (forall p, start <= p < start + default 50 maxAttempts -> ~ free h p) ->
  Checked.findAvailablePort start maxAttempts h =
  (Fulfilled (-1), probed (seqZ start (default 50 maxAttempts)) h).
Proof.
  intros Hlow Hhigh Hbusy.
  rewrite checked_findAvailablePort_in_range by done.
  by rewrite findAvailablePort_none_free.
Qed.

(** X16. For a preferred port with itself and the 50 ports after it within
    0 to 65535: when it is taken, switching is enabled and none of the
    next 50 ports is free, the promise of the resolution is fulfilled with
    port -1, not switched, and a message that names the range as
    [preferred + 1]-[preferred + 50]; the 51 ports have been probed. *)
Theorem resolve_exhausted_in_range
    (preferred : Z) (autoSwitch : option bool) (h : host) :
  0 <= preferred ->
  preferred + 50 <= 65535 ->
  default true autoSwitch = true ->
  ~ free h preferred ->
  (forall p, preferred + 1 <= p <= preferred + 50 -> ~ free h p) ->
  exists msg,
    Checked.getAvailablePort preferred autoSwitch h =
    (Fulfilled {| port := -1; switched := false; message := Some msg |},
     probed (preferred :: seqZ (preferred + 1) 50) h) /\
    msg = "Port " +:+ pretty preferred +:+
      " is in use and no available ports found in range " +:+
      pretty (preferred + 1) +:+ "-" +:+ pretty (preferred + 50) +:+ "." /\
    includes msg (pretty (preferred + 1) +:+ "-" +:+ pretty (preferred + 50)).
Proof.
  intros Hlow Hhigh Hswitch Hbusy Hwindow.
  eexists. split; [| split; [reflexivity |]].
  - rewrite checked_getAvailablePort_in_range by done.
    by rewrite (getAvailablePort_exhausted _ _ _ Hswitch Hbusy Hwindow).
  - do 2 apply includes_prefix_skip. apply includes_range.
Qed.

Lemma crowded_host_taken p : 8080 <= p <= 8130 -> ~ free crowded_host p.
Proof.
  intros Hp [_ Hb]. apply Hb.
  change (p ∈ (list_to_set (seqZ 8080 51) : gset Z)).
  apply elem_of_list_to_set, elem_of_seqZ. lia.
Qed.

Lemma scan_fails_iff_witness :
  exists r,
    fst (Checked.findAvailablePort 8080 None crowded_host) = Fulfilled r /\
    (r = -1 <->
     forall p, 8080 <= p < 8080 + default 50 None -> ~ free crowded_host p).
Proof.
  apply (scan_fails_iff 8080 None crowded_host); [lia | simpl; lia].
Defined.

Lemma resolve_fails_iff_witness :
  exists r,
    fst (Checked.getAvailablePort 8080 None crowded_host) = Fulfilled r /\
    (port r = -1 <->
     ~ free crowded_host 8080 /\
     (default true None = false \/
      forall q, 8080 + 1 <= q <= 8080 + 50 -> ~ free crowded_host q)).
Proof. apply (resolve_fails_iff 8080 None crowded_host); lia. Defined.

Lemma scan_exhausted_in_range_witness :
  Checked.findAvailablePort 8080 None crowded_host =
  (Fulfilled (-1), probed (seqZ 8080 (default 50 None)) crowded_host).
Proof.
  apply (scan_exhausted_in_range 8080 None crowded_host); [lia | simpl; lia |].
  intros p Hp. apply crowded_host_taken. simpl in Hp. lia.
Defined.

Lemma resolve_exhausted_in_range_witness :
  exists msg,
    Checked.getAvailablePort 8080 None crowded_host =
    (Fulfilled {| port := -1; switched := false; message := Some msg |},
     probed (8080 :: seqZ (8080 + 1) 50) crowded_host) /\
    msg = "Port " +:+ pretty 8080 +:+
      " is in use and no available ports found in range " +:+
      pretty (8080 + 1) +:+ "-" +:+ pretty (8080 + 50) +:+ "." /\
    includes msg (pretty (8080 + 1) +:+ "-" +:+ pretty (8080 + 50)).
Proof.
  apply (resolve_exhausted_in_range 8080 None crowded_host); try lia.
  - reflexivity.
  - apply crowded_host_taken. lia.
  - intros p Hp. apply crowded_host_taken. lia.
Defined.
